(** * Shallow embedding of [util/ranger/checker.go]

    The condition checker of the range builder decides whether a condition
    on one (possibly prefix-indexed) column can become an index access
    condition, and accumulates in [shouldReserve] whether the accepted
    condition must also be kept as a filter.

    The Go checker mutates the field [shouldReserve] of a
    [conditionChecker] in place; here every method is a computation in a
    small state-and-panic monad over the [conditionChecker] record.  A Go
    runtime panic (index out of range, failed type assertion) is [None]. *)

From Stdlib Require Import ZArith List String Bool Lia.
From Stdlib Require Import Strings.Byte.
Import ListNotations.
Open Scope Z_scope.

(** ** Data model (package [types], [expression]) *)

(** [types.EvalType]. *)
Inductive EvalType :=
| ETInt | ETReal | ETDecimal | ETString | ETDatetime | ETTimestamp
| ETDuration | ETJson.

Definition EvalType_eqb (a b : EvalType) : bool :=
  match a, b with
  | ETInt, ETInt | ETReal, ETReal | ETDecimal, ETDecimal
  | ETString, ETString | ETDatetime, ETDatetime
  | ETTimestamp, ETTimestamp | ETDuration, ETDuration
  | ETJson, ETJson => true
  | _, _ => false
  end.

(** [types.FieldType], reduced to what the checker reads: its evaluation
    type ([EvalType()]), its charset and its collation. *)
Record FieldType := mkFieldType {
  ftEvalType : EvalType;
  Charset : string;
  Collate : string
}.

(** [types.Datum], by kind. *)
Inductive Datum :=
| KindNull
| KindInt64 (i : Z)
| KindString (b : list byte)
| KindBytes (b : list byte)
| KindOther (tag : nat).

Definition IsNull (d : Datum) : bool :=
  match d with KindNull => true | _ => false end.

(** [Datum.GetInt64] reads the integer payload; the checker only calls it
    on the escape argument of [LIKE]. *)
Definition GetInt64 (d : Datum) : Z :=
  match d with KindInt64 i => i | _ => 0 end.

(** [Datum.GetBytes]. *)
Definition GetBytes (d : Datum) : list byte :=
  match d with KindString b | KindBytes b => b | _ => [] end.

Definition isBytesOrStringKind (d : Datum) : bool :=
  match d with KindString _ | KindBytes _ => true | _ => false end.

(** [expression.Column]. *)
Record Column := mkColumn {
  UniqueID : Z;
  ColRetType : FieldType
}.

(** [expression.Constant]: [DeferredExpr] and [ParamMarker] record whether
    the (nilable) pointer fields are set. *)
Record Constant := mkConstant {
  Value : Datum;
  DeferredExpr : bool;
  ParamMarker : bool;
  ConstRetType : FieldType
}.

(** [expression.Expression], closed over its variants.  A scalar function
    carries its lower-cased name [FuncName.L], the collation returned by
    [CharsetAndCollation], its return type and its arguments. *)
#[warnings="-register-all"]
Inductive Expression :=
| EScalarFunction (FuncName : string) (FuncCollation : string)
    (FuncRetType : FieldType) (Args : list Expression)
| EColumn (col : Column)
| EConstant (c : Constant)
| EOther (tp : FieldType).

Definition GetType (e : Expression) : FieldType :=
  match e with
  | EScalarFunction _ _ tp _ => tp
  | EColumn col => ColRetType col
  | EConstant c => ConstRetType c
  | EOther tp => tp
  end.

(** Lower-cased function names of package [ast]. *)
Definition LogicOr := "or"%string.
Definition LogicAnd := "and"%string.
Definition EQ := "eq"%string.
Definition NE := "ne"%string.
Definition GE := "ge"%string.
Definition GT := "gt"%string.
Definition LE := "le"%string.
Definition LT := "lt"%string.
Definition NullEQ := "nulleq"%string.
Definition IsNullF := "isnull"%string.
Definition IsTruthWithoutNull := "istrue"%string.
Definition IsFalsity := "isfalse"%string.
Definition IsTruthWithNull := "istrue_with_null"%string.
Definition UnaryNot := "not"%string.
Definition In := "in"%string.
Definition Like := "like"%string.
Definition GetParam := "getparam"%string.

(** [charset.CharsetUTF8] and [charset.CharsetUTF8MB4]. *)
Definition CharsetUTF8 := "utf8"%string.
Definition CharsetUTF8MB4 := "utf8mb4"%string.

Definition is_one_of (s : string) (l : list string) : bool :=
  existsb (String.eqb s) l.

(** ** [unicode/utf8.RuneCount]

    Go counts one rune per well-formed encoding and one per byte that does
    not start one. [rune_size p] is the number of bytes the loop of
    [RuneCount] advances at the head of [p]. *)

Definition locb := 128%N.
Definition hicb := 191%N.

(** The [first] table: [None] for ASCII, [Some None] for an invalid
    leading byte ([xx]), [Some (Some (size, lo, hi))] otherwise, with the
    accept range of the second byte. *)
Definition first (c : N) : option (option (nat * N * N)) :=
  if (c <? 128)%N then None
  else if (c <? 194)%N then Some None
  else if (c <? 224)%N then Some (Some (2%nat, 128%N, 191%N))
  else if (c =? 224)%N then Some (Some (3%nat, 160%N, 191%N))
  else if (c <? 237)%N then Some (Some (3%nat, 128%N, 191%N))
  else if (c =? 237)%N then Some (Some (3%nat, 128%N, 159%N))
  else if (c <? 240)%N then Some (Some (3%nat, 128%N, 191%N))
  else if (c =? 240)%N then Some (Some (4%nat, 144%N, 191%N))
  else if (c <? 244)%N then Some (Some (4%nat, 128%N, 191%N))
  else if (c =? 244)%N then Some (Some (4%nat, 128%N, 143%N))
  else Some None.

Definition in_range (lo hi : N) (b : byte) : bool :=
  (lo <=? Byte.to_N b)%N && (Byte.to_N b <=? hi)%N.

Definition rune_size (p : list byte) : nat :=
  match p with
  | [] => 1
  | c :: rest =>
      match first (Byte.to_N c) with
      | None => 1
      | Some None => 1
      | Some (Some (size, lo, hi)) =>
          if (List.length p <? size)%nat then 1
          else match rest with
               | c1 :: rest1 =>
                   if negb (in_range lo hi c1) then 1
                   else if (size =? 2)%nat then 2
                   else match rest1 with
                        | c2 :: rest2 =>
                            if negb (in_range locb hicb c2) then 1
                            else if (size =? 3)%nat then 3
                            else match rest2 with
                                 | c3 :: _ =>
                                     if negb (in_range locb hicb c3) then 1
                                     else size
                                 | [] => 1
                                 end
                        | [] => 1
                        end
               | [] => 1
               end
      end
  end.

(** The loop [for i := 0; i < np; { n++; ...; i += size }]; the fuel is
    the length of the input, which bounds the number of iterations since
    every iteration advances by at least one byte. *)
Fixpoint rune_count_fuel (fuel : nat) (p : list byte) : nat :=
  match fuel with
  | O => O
  | S f =>
      match p with
      | [] => O
      | _ => S (rune_count_fuel f (skipn (rune_size p) p))
      end
  end.

Definition RuneCount (p : list byte) : nat := rune_count_fuel (List.length p) p.

(** ** The checker state and its monad *)

Record conditionChecker := mkChecker {
  colUniqueID : Z;
  shouldReserve : bool;
  length : Z;
  isFullLength : bool
}.

(** State of the walk, with [None] for a Go runtime panic. *)
Definition M (A : Type) : Type :=
  conditionChecker -> option (A * conditionChecker).

Definition ret {A} (x : A) : M A := fun c => Some (x, c).

Definition bind {A B} (m : M A) (k : A -> M B) : M B :=
  fun c => match m c with
           | Some (x, c') => k x c'
           | None => None
           end.

Definition panic {A} : M A := fun _ => None.

Definition get : M conditionChecker := fun c => Some (c, c).

(** [c.shouldReserve = true]. *)
Definition setShouldReserve : M unit :=
  fun c => Some (tt, mkChecker (colUniqueID c) true (length c) (isFullLength c)).

Notation "x <- m ;; k" := (bind m (fun x => k))
  (at level 61, m at next level, right associativity).
Notation "m ;;; k" := (bind m (fun _ => k))
  (at level 61, right associativity).

(** [when (!c.isFullLength) { c.shouldReserve = true }]. *)
Definition reserveUnlessFullLength : M unit :=
  c <- get ;; if isFullLength c then ret tt else setShouldReserve.

(** Go's [&&] on two checks: the right one runs only if the left holds. *)
Definition andM (m1 m2 : M bool) : M bool :=
  b <- m1 ;; if b then m2 else ret false.

(** Slice indexing [args[i]], which panics out of range. *)
Definition index {A} (l : list A) (i : nat) : M A :=
  match nth_error l i with Some x => ret x | None => panic end.

(** Go's [byte(x)] on an [int64]: the low eight bits. *)
Definition byte_of_int64 (x : Z) : byte :=
  match Byte.of_N (Z.to_N (Z.land x 255)) with
  | Some b => b
  | None => x00
  end.

Definition percent : byte := "%"%byte.
Definition underscore : byte := "_"%byte.

(** The scanning loop of [checkLikeFunc] over [patternStr] (of length
    [n >= 1]) from index [i]; [ret false] is the [return false] of the
    loop, [ret true] its [break] or normal end, after which
    [checkLikeFunc] returns [true].  The fuel bounds the iterations, each
    of which advances [i] by at least one. *)
Fixpoint likeLoop (fuel : nat) (escape : byte) (patternStr : list byte)
    (n i : nat) : M bool :=
  match fuel with
  | O => ret true
  | S f =>
      if (i <? n)%nat then
        let ch := nth i patternStr x00 in
        if Byte.eqb ch escape then
          let i := S i in
          if (i <? n - 1)%nat then likeLoop f escape patternStr n (S i)
          else ret true
        else if (i =? 0)%nat && (Byte.eqb ch percent || Byte.eqb ch underscore)
        then ret false
        else if Byte.eqb ch percent then
          (if negb (i =? n - 1)%nat then setShouldReserve else ret tt) ;;;
          ret true
        else if Byte.eqb ch underscore then
          setShouldReserve ;;; ret true
        else likeLoop f escape patternStr n (S i)
      else ret true
  end.

(** [checkColumn]: no effect on the state. *)
Definition checkColumn (expr : Expression) : M bool :=
  c <- get ;;
  match expr with
  | EColumn col => ret (colUniqueID c =? UniqueID col)
  | _ => ret false
  end.

Section Checker.

(** The collaborators the checker consumes: [collate.CompatibleCollate],
    [Constant.Eval(chunk.Row{})] (with [None] for an error) and
    [Datum.ToString] (with [None] for an error). *)
Variable CompatibleCollate : string -> string -> bool.
Variable ConstEval : Constant -> option Datum.
Variable DatumToString : Datum -> option (list byte).

(** [GetLengthOfPrefixableConstant]; the constant pointer may be nil
    ([None]). *)
Definition GetLengthOfPrefixableConstant (c : option Constant) (tp : FieldType) : Z :=
  match c with
  | None => -1
  | Some c =>
      if DeferredExpr c || ParamMarker c then -1
      else match ConstEval c with
           | None => -1
           | Some val =>
               if negb (isBytesOrStringKind val) then -1
               else
                 let colCharset := Charset tp in
                 let isUTF8Charset :=
                   String.eqb colCharset CharsetUTF8 || String.eqb colCharset CharsetUTF8MB4 in
                 if isUTF8Charset then Z.of_nat (RuneCount (GetBytes val))
                 else Z.of_nat (List.length (GetBytes val))
           end
  end.

(** Lines 62-75 (and 81-94) of [checkScalarFunction]: a comparison of the
    constant [constVal] with the target column [colArg]. *)
Definition compareWithColumn (name collation : string) (constVal : Constant)
    (colArg : Expression) : M bool :=
  if EvalType_eqb (ftEvalType (GetType colArg)) ETString
     && negb (CompatibleCollate (Collate (GetType colArg)) collation)
  then ret false
  else
    c <- get ;;
    if isFullLength c then ret true
    else
      let constLen := GetLengthOfPrefixableConstant (Some constVal) (GetType colArg) in
      if String.eqb name NE then
        ret (negb (constLen =? -1) && (constLen <? length c))
      else
        (if (constLen =? -1) || (constLen >=? length c)
         then setShouldReserve else ret tt) ;;;
        ret true.

(** The loop over [scalar.GetArgs()[1:]] of the [In] case; [tp] is the
    type of the first argument. *)
Fixpoint inLoop (tp : FieldType) (vs : list Expression) : M bool :=
  match vs with
  | [] => ret true
  | v :: rest =>
      match v with
      | EConstant constVal =>
          c <- get ;;
          (if isFullLength c then ret tt
           else
             let constLen := GetLengthOfPrefixableConstant (Some constVal) tp in
             if (constLen =? -1) || (constLen >=? length c)
             then setShouldReserve else ret tt) ;;;
          inLoop tp rest
      | _ => ret false
      end
  end.

(** [checkLikeFunc]; [collation] is what [scalar.CharsetAndCollation]
    returns, [args] is [scalar.GetArgs()]. *)
Definition checkLikeFunc (collation : string) (args : list Expression) : M bool :=
  a0 <- index args 0 ;;
  if negb (CompatibleCollate (Collate (GetType a0)) collation) then ret false
  else
    ok <- checkColumn a0 ;;
    if negb ok then ret false
    else
      a1 <- index args 1 ;;
      match a1 with
      | EConstant pattern =>
          if IsNull (Value pattern) then ret false
          else
            match DatumToString (Value pattern) with
            | None => ret false
            | Some patternStr =>
                if (List.length patternStr =? 0)%nat then ret true
                else
                  a2 <- index args 2 ;;
                  match a2 with
                  | EConstant esc =>
                      let escape := byte_of_int64 (GetInt64 (Value esc)) in
                      likeLoop (List.length patternStr) escape patternStr
                        (List.length patternStr) 0
                  | _ => panic
                  end
            end
      | _ => ret false
      end.

(** [check]; its [ScalarFunction] case is [checkScalarFunction], inlined
    so that the recursion on the arguments is structural. *)
Fixpoint check (condition : Expression) : M bool :=
  match condition with
  | EScalarFunction name collation _ args =>
        if is_one_of name [LogicOr; LogicAnd] then
          match args with
          | a0 :: rest =>
              andM (check a0) (match rest with a1 :: _ => check a1 | [] => panic end)
          | [] => panic
          end
        else if is_one_of name [EQ; NE; GE; GT; LE; LT; NullEQ] then
          let secondBranch :=
            a1 <- index args 1 ;;
            match a1 with
            | EConstant constVal =>
                a0 <- index args 0 ;;
                ok <- checkColumn a0 ;;
                if ok then compareWithColumn name collation constVal a0 else ret false
            | _ => ret false
            end in
          a0 <- index args 0 ;;
          match a0 with
          | EConstant constVal =>
              a1 <- index args 1 ;;
              ok <- checkColumn a1 ;;
              if ok then compareWithColumn name collation constVal a1 else secondBranch
          | _ => secondBranch
          end
        else if String.eqb name IsNullF then
          reserveUnlessFullLength ;;;
          a0 <- index args 0 ;;
          checkColumn a0
        else if is_one_of name [IsTruthWithoutNull; IsFalsity; IsTruthWithNull] then
          a0 <- index args 0 ;;
          let rest :=
            reserveUnlessFullLength ;;;
            checkColumn a0 in
          match a0 with
          | EColumn s =>
              if EvalType_eqb (ftEvalType (ColRetType s)) ETString then ret false else rest
          | _ => rest
          end
        else if String.eqb name UnaryNot then
          match args with
          | a0 :: _ =>
              match a0 with
              | EScalarFunction sname _ _ _ =>
                  if String.eqb sname Like then ret false else check a0
              | _ => ret false
              end
          | [] => panic
          end
        else if String.eqb name In then
          a0 <- index args 0 ;;
          ok <- checkColumn a0 ;;
          if negb ok then ret false
          else
            a1 <- index args 1 ;;
            if EvalType_eqb (ftEvalType (GetType a1)) ETString
               && negb (CompatibleCollate (Collate (GetType a0)) collation)
            then ret false
            else inLoop (GetType a0) (tl args)
        else if String.eqb name Like then
          reserveUnlessFullLength ;;;
          checkLikeFunc collation args
        else if String.eqb name GetParam then ret true
        else ret false
  | EColumn x =>
      if EvalType_eqb (ftEvalType (ColRetType x)) ETString then ret false
      else reserveUnlessFullLength ;;; checkColumn (EColumn x)
  | EConstant _ => ret true
  | EOther _ => ret false
  end.

(** [checkScalarFunction] on a scalar function with name [name], derived
    collation [collation], return type [tp] and arguments [args]. *)
Definition checkScalarFunction (name collation : string) (tp : FieldType)
    (args : list Expression) : M bool :=
  check (EScalarFunction name collation tp args).

End Checker.

(** ** Properties *)

Arguments GetLengthOfPrefixableConstant : simpl never.

(** The target column in comparison position, with its collation
    compatible with the function when it is string-like. *)
Definition column_fits (CompatibleCollate : string -> string -> bool)
    (c : conditionChecker) (col : Column) (collation : string) : Prop :=
  UniqueID col = colUniqueID c /\
  (EvalType_eqb (ftEvalType (ColRetType col)) ETString = true ->
   CompatibleCollate (Collate (ColRetType col)) collation = true).

(** The two argument orders of a comparison of a constant with a column. *)
Definition cmp_args (swap : bool) (k : Constant) (col : Column) : list Expression :=
  if swap then [EColumn col; EConstant k] else [EConstant k; EColumn col].

(** [c] with [shouldReserve] set. *)
Definition reserved (c : conditionChecker) : conditionChecker :=
  mkChecker (colUniqueID c) true (length c) (isFullLength c).

Lemma is_one_of_spec s l : is_one_of s l = true <-> List.In s l.
Proof.
  unfold is_one_of. rewrite existsb_exists. split.
  - intros [x [Hx Heq]]. apply String.eqb_eq in Heq. subst. exact Hx.
  - intros Hin. exists s. split; [exact Hin | apply String.eqb_refl].
Qed.

(** Split a hypothesis [is_one_of name [...] = true] into the cases. *)
Ltac name_cases H :=
  apply is_one_of_spec in H; cbn [List.In] in H;
  repeat match type of H with
         | _ \/ _ => destruct H as [<- | H]
         | False => destruct H
         end.

Lemma compareWithColumn_fits CompatibleCollate ConstEval name collation k col c :
  column_fits CompatibleCollate c col collation ->
  compareWithColumn CompatibleCollate ConstEval name collation k (EColumn col) c =
  (if isFullLength c then Some (true, c)
   else
     let len := GetLengthOfPrefixableConstant ConstEval (Some k) (ColRetType col) in
     if String.eqb name NE then Some (negb (len =? -1) && (len <? length c), c)
     else if (len =? -1) || (len >=? length c) then Some (true, reserved c)
     else Some (true, c)).
Proof.
  intros [_ Hcoll]. unfold compareWithColumn. cbn [GetType].
  replace (EvalType_eqb (ftEvalType (ColRetType col)) ETString
           && negb (CompatibleCollate (Collate (ColRetType col)) collation)) with false
    by (destruct (EvalType_eqb _ _); [rewrite (Hcoll eq_refl)|]; reflexivity).
  unfold bind, get, ret. destruct (isFullLength c); [reflexivity|].
  destruct (String.eqb name NE); [reflexivity|].
  destruct (_ || _); reflexivity.
Qed.

Lemma check_cmp CompatibleCollate ConstEval DatumToString name collation tp swap k col c :
  is_one_of name [EQ; NE; GE; GT; LE; LT; NullEQ] = true ->
  column_fits CompatibleCollate c col collation ->
  check CompatibleCollate ConstEval DatumToString
    (EScalarFunction name collation tp (cmp_args swap k col)) c =
  compareWithColumn CompatibleCollate ConstEval name collation k (EColumn col) c.
Proof.
  intros Hname Hfit. pose proof Hfit as [Hid _].
  name_cases Hname;
    destruct swap; cbn; unfold bind, get, ret, checkColumn, index; cbn;
    rewrite Hid, Z.eqb_refl; reflexivity.
Qed.

(** C1: a not-equal comparison of a constant with the target column, in
    prefix mode, is accepted iff the constant's prefixable length is
    bounded (not -1) and strictly below the prefix length; otherwise it is
    rejected, and the reservation flag is left as it was. *)
Theorem ne_prefix_accept_iff_bounded CompatibleCollate ConstEval DatumToString
    collation tp swap k col c :
  isFullLength c = false ->
  column_fits CompatibleCollate c col collation ->
  let len := GetLengthOfPrefixableConstant ConstEval (Some k) (ColRetType col) in
  check CompatibleCollate ConstEval DatumToString
    (EScalarFunction NE collation tp (cmp_args swap k col)) c =
  Some (negb (len =? -1) && (len <? length c), c).
Proof.
  intros Hfull Hfit len.
  rewrite check_cmp by (exact eq_refl || exact Hfit).
  rewrite compareWithColumn_fits by exact Hfit.
  rewrite Hfull. reflexivity.
Qed.

(** C4: any other comparison of a constant with the target column, in
    prefix mode, whose constant has an unbounded prefixable length or one
    at least the prefix length, is accepted and sets the reservation flag. *)
Theorem cmp_prefix_long_constant_reserves CompatibleCollate ConstEval DatumToString
    name collation tp swap k col c :
  is_one_of name [EQ; GE; GT; LE; LT; NullEQ] = true ->
  isFullLength c = false ->
  column_fits CompatibleCollate c col collation ->
  let len := GetLengthOfPrefixableConstant ConstEval (Some k) (ColRetType col) in
  (len = -1 \/ len >= length c) ->
  check CompatibleCollate ConstEval DatumToString
    (EScalarFunction name collation tp (cmp_args swap k col)) c =
  Some (true, reserved c).
Proof.
  intros Hname Hfull Hfit len Hlen.
  assert (Hne : String.eqb name NE = false)
    by (clear - Hname; name_cases Hname; reflexivity).
  rewrite check_cmp.
  2:{ clear - Hname; name_cases Hname; reflexivity. }
  2: exact Hfit.
  rewrite compareWithColumn_fits by exact Hfit.
  rewrite Hfull. cbv zeta. fold len. rewrite Hne.
  destruct Hlen as [-> | Hge]; [reflexivity|].
  replace (len >=? length c) with true by (symmetry; apply Z.geb_le; lia).
  rewrite orb_true_r. reflexivity.
Qed.

(** A simple instance of the collaborators, used on concrete inputs:
    collations are compatible when equal, a constant evaluates to its
    value, and a datum prints as its bytes. *)
Definition sampleCompatibleCollate (a b : string) : bool := String.eqb a b.
Definition sampleConstEval (k : Constant) : option Datum := Some (Value k).
Definition sampleDatumToString (d : Datum) : option (list byte) :=
  match d with
  | KindString b | KindBytes b => Some b
  | KindNull => Some []
  | _ => None
  end.

Definition utf8mb4_bin_string := mkFieldType ETString CharsetUTF8MB4 "utf8mb4_bin".
Definition int_type := mkFieldType ETInt "binary" "binary".
Definition string_const (s : string) : Constant :=
  mkConstant (KindString (list_byte_of_string s)) false false utf8mb4_bin_string.
Definition int_const (z : Z) : Constant := mkConstant (KindInt64 z) false false int_type.

(** The pattern [abc%]. *)
Definition abc_pct : list byte := list_byte_of_string "abc%".

Lemma likeLoop_abc_pct escape c :
  likeLoop 4 escape abc_pct 4 0 c = Some (true, c).
Proof. destruct escape; reflexivity. Qed.

Lemma checkLikeFunc_abc_pct CompatibleCollate DatumToString collation col pat esc c :
  UniqueID col = colUniqueID c ->
  CompatibleCollate (Collate (ColRetType col)) collation = true ->
  IsNull (Value pat) = false ->
  DatumToString (Value pat) = Some abc_pct ->
  checkLikeFunc CompatibleCollate DatumToString collation
    [EColumn col; EConstant pat; EConstant esc] c = Some (true, c).
Proof.
  intros Hid Hcoll Hnull Hstr.
  unfold checkLikeFunc, bind, index, checkColumn, get, ret; cbn -[likeLoop].
  rewrite Hcoll; cbn -[likeLoop]. rewrite Hid, Z.eqb_refl; cbn -[likeLoop].
  rewrite Hnull, Hstr. apply likeLoop_abc_pct.
Qed.

(** C2 (as stated, refuted): the LIKE condition [col LIKE 'abc%'] on the
    target column, checked with prefix length 10 from a fresh checker, is
    accepted but does not leave [shouldReserve] false. *)
Lemma like_abc_pct_prefix10_reserves :
  let col := mkColumn 1 utf8mb4_bin_string in
  let e := EScalarFunction Like "utf8mb4_bin" int_type
             [EColumn col; EConstant (string_const "abc%"); EConstant (int_const 92)] in
  ~ (exists c', check sampleCompatibleCollate sampleConstEval sampleDatumToString e
                  (mkChecker 1 false 10 false) = Some (true, c')
                /\ shouldReserve c' = false).
Proof.
  intros col e [c' [Hc Hr]]. vm_compute in Hc. injection Hc as <-. discriminate Hr.
Qed.

(** C2 (amended): for [col LIKE 'abc%'] on the target column (with any
    escape constant), the pattern scan [checkLikeFunc] accepts and leaves
    the flag unchanged, and [check] accepts; in prefix mode the [Like]
    case itself sets the flag, in full-length mode the flag is unchanged. *)
Theorem like_abc_pct_accepted CompatibleCollate ConstEval DatumToString
    collation tp col pat esc c :
  UniqueID col = colUniqueID c ->
  CompatibleCollate (Collate (ColRetType col)) collation = true ->
  IsNull (Value pat) = false ->
  DatumToString (Value pat) = Some abc_pct ->
  checkLikeFunc CompatibleCollate DatumToString collation
    [EColumn col; EConstant pat; EConstant esc] c = Some (true, c) /\
  check CompatibleCollate ConstEval DatumToString
    (EScalarFunction Like collation tp [EColumn col; EConstant pat; EConstant esc]) c =
  Some (true, if isFullLength c then c else reserved c).
Proof.
  intros Hid Hcoll Hnull Hstr.
  split; [apply checkLikeFunc_abc_pct; assumption|].
  cbn [check is_one_of existsb String.eqb]. cbn.
  unfold bind, reserveUnlessFullLength, bind, get, ret at 1.
  destruct (isFullLength c) eqn:Hfull.
  - apply checkLikeFunc_abc_pct; assumption.
  - unfold setShouldReserve.
    apply checkLikeFunc_abc_pct; cbn; assumption.
Qed.

Lemma like_abc_pct_accepted_witness :
  let col := mkColumn 1 utf8mb4_bin_string in
  check sampleCompatibleCollate sampleConstEval sampleDatumToString
    (EScalarFunction Like "utf8mb4_bin" int_type
       [EColumn col; EConstant (string_const "abc%"); EConstant (int_const 92)])
    (mkChecker 1 false 10 false) = Some (true, mkChecker 1 true 10 false).
Proof.
  intros col.
  apply (proj2 (like_abc_pct_accepted sampleCompatibleCollate sampleConstEval
    sampleDatumToString "utf8mb4_bin" int_type col (string_const "abc%")
    (int_const 92) (mkChecker 1 false 10 false) eq_refl eq_refl eq_refl eq_refl)).
Defined.


(** C6: [GetLengthOfPrefixableConstant] returns the unbounded sentinel -1
    for a nil constant, a deferred or parameter-marker constant, a failed
    evaluation, or a value that is neither bytes nor string (the function
    returns a plain integer: it has no failure channel). *)
Theorem prefixable_length_unbounded_fallback ConstEval (k : option Constant) tp :
  (k = None \/
   exists c, k = Some c /\
     (DeferredExpr c = true \/ ParamMarker c = true \/ ConstEval c = None \/
      exists d, ConstEval c = Some d /\ isBytesOrStringKind d = false)) ->
  GetLengthOfPrefixableConstant ConstEval k tp = -1.
Proof.
  intros [-> | [c [-> H]]]; [reflexivity|].
  unfold GetLengthOfPrefixableConstant.
  destruct (DeferredExpr c) eqn:Hd; [reflexivity|].
  destruct (ParamMarker c) eqn:Hp; [reflexivity|]. cbn [orb].
  destruct H as [H | [H | [H | [d [Hev Hk]]]]]; try discriminate.
  - rewrite H. reflexivity.
  - rewrite Hev, Hk. reflexivity.
Qed.

Lemma prefixable_length_unbounded_fallback_witness :
  GetLengthOfPrefixableConstant sampleConstEval (Some (int_const 7)) utf8mb4_bin_string = -1.
Proof.
  apply prefixable_length_unbounded_fallback. right. exists (int_const 7).
  split; [reflexivity|]. right. right. right. exists (KindInt64 7). split; reflexivity.
Defined.

(** Three CJK characters in UTF-8: 9 bytes. *)
Definition three_runes : list byte :=
  [xe4; xb8; xad; xe6; x96; x87; xe5; xad; x97].

(** C7: for a constant that evaluates statically to a string or bytes
    value, the prefixable length is the rune count of its bytes when the
    column charset is [utf8] or [utf8mb4] and the byte length otherwise; a
    3-rune, 9-byte literal against a [utf8mb4] column yields 3. *)
Theorem prefixable_length_charset_aware ConstEval :
  (forall k tp b,
     DeferredExpr k = false -> ParamMarker k = false ->
     (ConstEval k = Some (KindString b) \/ ConstEval k = Some (KindBytes b)) ->
     GetLengthOfPrefixableConstant ConstEval (Some k) tp =
     if is_one_of (Charset tp) [CharsetUTF8; CharsetUTF8MB4]
     then Z.of_nat (RuneCount b) else Z.of_nat (List.length b)) /\
  (List.length three_runes = 9%nat /\ RuneCount three_runes = 3%nat /\
   forall k tp,
     DeferredExpr k = false -> ParamMarker k = false ->
     ConstEval k = Some (KindString three_runes) ->
     Charset tp = CharsetUTF8MB4 ->
     GetLengthOfPrefixableConstant ConstEval (Some k) tp = 3).
Proof.
  assert (Hgen : forall k tp b,
     DeferredExpr k = false -> ParamMarker k = false ->
     (ConstEval k = Some (KindString b) \/ ConstEval k = Some (KindBytes b)) ->
     GetLengthOfPrefixableConstant ConstEval (Some k) tp =
     if is_one_of (Charset tp) [CharsetUTF8; CharsetUTF8MB4]
     then Z.of_nat (RuneCount b) else Z.of_nat (List.length b)).
  { intros k tp b Hd Hp Hev. unfold GetLengthOfPrefixableConstant.
    rewrite Hd, Hp. cbn [orb].
    destruct Hev as [Hev | Hev]; rewrite Hev; cbn [isBytesOrStringKind negb GetBytes];
      unfold is_one_of; cbn [existsb]; rewrite orb_false_r; reflexivity. }
  split; [exact Hgen|].
  split; [reflexivity|]. split; [reflexivity|].
  intros k tp Hd Hp Hev Hcs. rewrite (Hgen k tp three_runes Hd Hp (or_introl Hev)).
  rewrite Hcs. reflexivity.
Qed.

Lemma prefixable_length_charset_aware_witness :
  GetLengthOfPrefixableConstant sampleConstEval
    (Some (mkConstant (KindString three_runes) false false utf8mb4_bin_string))
    utf8mb4_bin_string = 3.
Proof.
  apply (proj2 (proj2 (proj2 (prefixable_length_charset_aware sampleConstEval))));
    reflexivity.
Defined.

(** C8: a logical [NOT] is rejected when its operand is not a scalar
    function or is a [LIKE]; otherwise its result, and the effect on the
    flag, are exactly those of its operand, without inversion. *)
Theorem not_passes_operand_through CompatibleCollate ConstEval DatumToString
    collation tp a0 rest c :
  check CompatibleCollate ConstEval DatumToString
    (EScalarFunction UnaryNot collation tp (a0 :: rest)) c =
  match a0 with
  | EScalarFunction n _ _ _ =>
      if String.eqb n Like then Some (false, c)
      else check CompatibleCollate ConstEval DatumToString a0 c
  | _ => Some (false, c)
  end.
Proof.
  destruct a0 as [n coll' tp' args' | col | k | tp']; cbn [check];
    cbn -[check]; try reflexivity.
  destruct (String.eqb n Like); reflexivity.
Qed.

(** C9: an [IS NULL] whose operand is not the target column, checked in
    prefix mode, is rejected after the flag has been set; the rejection
    does not reset it. *)
Theorem isnull_rejected_after_reserve CompatibleCollate ConstEval DatumToString
    collation tp a0 rest c :
  isFullLength c = false ->
  (forall col, a0 = EColumn col -> UniqueID col <> colUniqueID c) ->
  check CompatibleCollate ConstEval DatumToString
    (EScalarFunction IsNullF collation tp (a0 :: rest)) c = Some (false, reserved c).
Proof.
  intros Hfull Hnot. cbn.
  unfold reserveUnlessFullLength, bind, get, ret, index, checkColumn, setShouldReserve.
  rewrite Hfull. cbn.
  destruct a0 as [ | col | | ]; try reflexivity.
  specialize (Hnot col eq_refl).
  destruct (Z.eqb_spec (colUniqueID c) (UniqueID col)); [congruence | reflexivity].
Qed.

Lemma isnull_rejected_after_reserve_witness :
  check sampleCompatibleCollate sampleConstEval sampleDatumToString
    (EScalarFunction IsNullF "binary" int_type [EColumn (mkColumn 2 int_type)])
    (mkChecker 1 false 10 false) = Some (false, mkChecker 1 true 10 false).
Proof.
  apply (isnull_rejected_after_reserve sampleCompatibleCollate sampleConstEval
    sampleDatumToString "binary" int_type (EColumn (mkColumn 2 int_type)) []
    (mkChecker 1 false 10 false) eq_refl).
  intros col Hcol. injection Hcol as <-. cbn. lia.
Defined.

Lemma likeLoop_total fuel escape p n i c :
  likeLoop fuel escape p n i c <> None.
Proof.
  revert i c. induction fuel as [|f IH]; intros i c; cbn;
    unfold ret, bind, setShouldReserve; [congruence|].
  repeat match goal with |- context [if ?b then _ else _] => destruct b end;
    solve [congruence | apply IH].
Qed.

(** C10: when the third argument of a [LIKE] is an integer constant, the
    type assertion on it in [checkLikeFunc] cannot fail: [checkLikeFunc]
    never panics, and neither does [check] on that [LIKE] node. *)
Theorem checkLikeFunc_total_on_const_escape CompatibleCollate ConstEval
    DatumToString collation tp args esc c :
  nth_error args 2 = Some (EConstant esc) ->
  (exists z, Value esc = KindInt64 z) ->
  checkLikeFunc CompatibleCollate DatumToString collation args c <> None /\
  check CompatibleCollate ConstEval DatumToString
    (EScalarFunction Like collation tp args) c <> None.
Proof.
  intros Hesc _.
  assert (Hlike : forall c, checkLikeFunc CompatibleCollate DatumToString collation args c <> None).
  { intros c0.
    destruct args as [|a0 [|a1 [|a2 rest]]]; try discriminate Hesc.
    cbn in Hesc. injection Hesc as ->.
    unfold checkLikeFunc, bind, index, get, ret, checkColumn. cbn -[likeLoop].
    destruct (negb (CompatibleCollate _ _)); [congruence|].
    destruct a0; cbn -[likeLoop]; try congruence.
    destruct (_ =? _); cbn -[likeLoop]; [|congruence].
    destruct a1; cbn -[likeLoop]; try congruence.
    destruct (IsNull _); [congruence|].
    destruct (DatumToString _); [|congruence].
    destruct (_ =? 0)%nat; [unfold ret; congruence | apply likeLoop_total]. }
  split; [apply Hlike|].
  cbn. unfold reserveUnlessFullLength, bind, get, ret, setShouldReserve.
  destruct (isFullLength c); apply Hlike.
Qed.

Lemma checkLikeFunc_total_on_const_escape_witness :
  check sampleCompatibleCollate sampleConstEval sampleDatumToString
    (EScalarFunction Like "utf8mb4_bin" int_type
       [EColumn (mkColumn 1 utf8mb4_bin_string); EConstant (string_const "a_c");
        EConstant (int_const 92)])
    (mkChecker 1 false 10 true) <> None.
Proof.
  apply (proj2 (checkLikeFunc_total_on_const_escape sampleCompatibleCollate
    sampleConstEval sampleDatumToString "utf8mb4_bin" int_type
    [EColumn (mkColumn 1 utf8mb4_bin_string); EConstant (string_const "a_c");
     EConstant (int_const 92)] (int_const 92) (mkChecker 1 false 10 true) eq_refl
    (ex_intro _ 92 eq_refl))).
Defined.

(** *** Monotonicity of [shouldReserve] *)

(** A computation only ever sets the flag: if it was set before, it is set
    after. *)
Definition reserve_monotone {A} (m : M A) : Prop :=
  forall c r c', m c = Some (r, c') -> shouldReserve c = true -> shouldReserve c' = true.

Lemma mono_ret {A} (x : A) : reserve_monotone (ret x).
Proof. intros c r c' H Hs. injection H as _ <-. exact Hs. Qed.

Lemma mono_panic {A} : reserve_monotone (@panic A).
Proof. intros c r c' H. discriminate H. Qed.

Lemma mono_get : reserve_monotone get.
Proof. intros c r c' H Hs. injection H as _ <-. exact Hs. Qed.

Lemma mono_set : reserve_monotone setShouldReserve.
Proof. intros c r c' H _. injection H as _ <-. reflexivity. Qed.

Lemma mono_bind {A B} (m : M A) (k : A -> M B) :
  reserve_monotone m -> (forall x, reserve_monotone (k x)) ->
  reserve_monotone (bind m k).
Proof.
  intros Hm Hk c r c' H Hs. unfold bind in H.
  destruct (m c) as [[x c1]|] eqn:E; [|discriminate H].
  exact (Hk x c1 r c' H (Hm c x c1 E Hs)).
Qed.

Lemma mono_index {A} (l : list A) i : reserve_monotone (index l i).
Proof. unfold index. destruct (nth_error l i); [apply mono_ret | apply mono_panic]. Qed.

Create HintDb reserve_mono.
#[local] Hint Resolve mono_ret mono_panic mono_get mono_set mono_index : reserve_mono.

(** Walk a computation built from the monad's operations. *)
Ltac mono :=
  repeat first
    [ progress auto with reserve_mono
    | apply mono_bind; intros
    | match goal with
      | |- reserve_monotone (match ?x with _ => _ end) => destruct x
      | H : Forall _ (_ :: _) |- _ => apply Forall_cons_iff in H; destruct H
      end ].

Lemma mono_reserveUnlessFullLength : reserve_monotone reserveUnlessFullLength.
Proof. unfold reserveUnlessFullLength. mono. Qed.

Lemma mono_andM m1 m2 :
  reserve_monotone m1 -> reserve_monotone m2 -> reserve_monotone (andM m1 m2).
Proof. intros H1 H2. unfold andM. mono. Qed.

Lemma mono_checkColumn e : reserve_monotone (checkColumn e).
Proof. unfold checkColumn. mono. Qed.

Lemma mono_likeLoop fuel escape p n i : reserve_monotone (likeLoop fuel escape p n i).
Proof.
  revert i. induction fuel as [|f IH]; intros i; cbn [likeLoop]; mono.
Qed.

#[local] Hint Resolve mono_reserveUnlessFullLength mono_andM mono_checkColumn
  mono_likeLoop : reserve_mono.

Lemma mono_inLoop ConstEval tp vs : reserve_monotone (inLoop ConstEval tp vs).
Proof. induction vs as [|v rest IH]; cbn [inLoop]; mono. Qed.

Lemma mono_compareWithColumn CompatibleCollate ConstEval name collation k e :
  reserve_monotone (compareWithColumn CompatibleCollate ConstEval name collation k e).
Proof. unfold compareWithColumn. mono. Qed.

Lemma mono_checkLikeFunc CompatibleCollate DatumToString collation args :
  reserve_monotone (checkLikeFunc CompatibleCollate DatumToString collation args).
Proof. unfold checkLikeFunc. mono. Qed.

#[local] Hint Resolve mono_inLoop mono_compareWithColumn mono_checkLikeFunc : reserve_mono.

(** Induction on expressions with a hypothesis for every argument of a
    scalar function. *)
Fixpoint Expression_ind' (P : Expression -> Prop)
    (Hs : forall n coll tp args, Forall P args -> P (EScalarFunction n coll tp args))
    (Hc : forall col, P (EColumn col)) (Hk : forall k, P (EConstant k))
    (Ho : forall tp, P (EOther tp)) (e : Expression) : P e :=
  match e with
  | EScalarFunction n coll tp args =>
      Hs n coll tp args
        ((fix go (l : list Expression) : Forall P l :=
            match l with
            | [] => Forall_nil P
            | x :: xs => @Forall_cons _ P x xs (Expression_ind' P Hs Hc Hk Ho x) (go xs)
            end) args)
  | EColumn col => Hc col
  | EConstant k => Hk k
  | EOther tp => Ho tp
  end.

Lemma mono_check CompatibleCollate ConstEval DatumToString e :
  reserve_monotone (check CompatibleCollate ConstEval DatumToString e).
Proof.
  induction e as [n coll tp args HF | col | k | tp] using Expression_ind';
    cbn [check]; mono.
Qed.

(** C5: during a walk the flag [shouldReserve] only goes from false to
    true: none of [check], [checkScalarFunction], [checkLikeFunc] and
    [checkColumn] resets it, so once a subtree has set it, it stays set. *)
Theorem shouldReserve_monotone CompatibleCollate ConstEval DatumToString :
  (forall e, reserve_monotone (check CompatibleCollate ConstEval DatumToString e)) /\
  (forall name collation tp args,
     reserve_monotone
       (checkScalarFunction CompatibleCollate ConstEval DatumToString name collation tp args)) /\
  (forall collation args,
     reserve_monotone (checkLikeFunc CompatibleCollate DatumToString collation args)) /\
  (forall e, reserve_monotone (checkColumn e)).
Proof.
  split; [apply mono_check|].
  split; [intros; apply mono_check|].
  split; [apply mono_checkLikeFunc | apply mono_checkColumn].
Qed.

Lemma shouldReserve_monotone_witness :
  match check sampleCompatibleCollate sampleConstEval sampleDatumToString
          (EScalarFunction LogicAnd "binary" int_type
             [EColumn (mkColumn 1 int_type);
              EScalarFunction EQ "binary" int_type
                [EColumn (mkColumn 1 int_type); EConstant (int_const 5)]])
          (mkChecker 1 true 10 false) with
  | Some (_, c') => shouldReserve c' = true
  | None => False
  end.
Proof.
  pose proof (proj1 (shouldReserve_monotone sampleCompatibleCollate sampleConstEval
    sampleDatumToString)) as Hm.
  match goal with |- match ?m with _ => _ end => destruct m as [[r c']|] eqn:E end.
  - exact (Hm _ _ r c' E eq_refl).
  - vm_compute in E. discriminate E.
Defined.

Lemma ne_prefix_accept_iff_bounded_witness :
  check sampleCompatibleCollate sampleConstEval sampleDatumToString
    (EScalarFunction NE "utf8mb4_bin" int_type
       (cmp_args false (string_const "ab") (mkColumn 1 utf8mb4_bin_string)))
    (mkChecker 1 false 10 false) = Some (true, mkChecker 1 false 10 false).
Proof.
  rewrite (ne_prefix_accept_iff_bounded sampleCompatibleCollate sampleConstEval
    sampleDatumToString "utf8mb4_bin" int_type false (string_const "ab")
    (mkColumn 1 utf8mb4_bin_string) (mkChecker 1 false 10 false) eq_refl
    (conj eq_refl (fun _ => eq_refl))).
  vm_compute. reflexivity.
Defined.

Lemma cmp_prefix_long_constant_reserves_witness :
  check sampleCompatibleCollate sampleConstEval sampleDatumToString
    (EScalarFunction GE "utf8mb4_bin" int_type
       (cmp_args true (string_const "abcdefghijkl") (mkColumn 1 utf8mb4_bin_string)))
    (mkChecker 1 false 10 false) = Some (true, mkChecker 1 true 10 false).
Proof.
  rewrite (cmp_prefix_long_constant_reserves sampleCompatibleCollate sampleConstEval
    sampleDatumToString GE "utf8mb4_bin" int_type true (string_const "abcdefghijkl")
    (mkColumn 1 utf8mb4_bin_string) (mkChecker 1 false 10 false) eq_refl eq_refl
    (conj eq_refl (fun _ => eq_refl))).
  - reflexivity.
  - right. vm_compute. discriminate.
Defined.

(** ** Further properties of the checker *)

(** *** State changes of a walk

    [preserves R m]: every successful run of [m] relates its initial and
    final checker by [R]. *)
Definition preserves (R : conditionChecker -> conditionChecker -> Prop) {A} (m : M A) : Prop :=
  forall c r c', m c = Some (r, c') -> R c c'.

Section Preserves.

Variable R : conditionChecker -> conditionChecker -> Prop.
Hypothesis R_refl : forall c, R c c.
Hypothesis R_trans : forall c1 c2 c3, R c1 c2 -> R c2 c3 -> R c1 c3.

Lemma pres_ret {A} (x : A) : preserves R (ret x).
Proof. intros c r c' H. injection H as _ <-. apply R_refl. Qed.

Lemma pres_panic {A} : preserves R (@panic A).
Proof. intros c r c' H. discriminate H. Qed.

Lemma pres_get : preserves R get.
Proof. intros c r c' H. injection H as _ <-. apply R_refl. Qed.

Lemma pres_bind {A B} (m : M A) (k : A -> M B) :
  preserves R m -> (forall x, preserves R (k x)) -> preserves R (bind m k).
Proof.
  intros Hm Hk c r c' H. unfold bind in H.
  destruct (m c) as [[x c1]|] eqn:E; [|discriminate H].
  exact (R_trans _ _ _ (Hm _ _ _ E) (Hk x _ _ _ H)).
Qed.

Lemma pres_index {A} (l : list A) i : preserves R (index l i).
Proof. unfold index. destruct (nth_error l i); [apply pres_ret | apply pres_panic]. Qed.

Lemma pres_andM m1 m2 : preserves R m1 -> preserves R m2 -> preserves R (andM m1 m2).
Proof.
  intros H1 H2. unfold andM. apply pres_bind; [exact H1|].
  intros b. destruct b; [exact H2 | apply pres_ret].
Qed.

Lemma pres_checkColumn e : preserves R (checkColumn e).
Proof.
  unfold checkColumn. apply pres_bind; [apply pres_get|].
  intros c. destruct e; apply pres_ret.
Qed.

End Preserves.

(** The final checker is the initial one, or the initial one with the
    flag set. *)
Definition only_sets_flag (c c' : conditionChecker) : Prop :=
  c' = c \/ c' = reserved c.

Lemma only_sets_flag_refl c : only_sets_flag c c.
Proof. left. reflexivity. Qed.

Lemma only_sets_flag_trans c1 c2 c3 :
  only_sets_flag c1 c2 -> only_sets_flag c2 c3 -> only_sets_flag c1 c3.
Proof.
  unfold only_sets_flag, reserved. intros [-> | ->] [-> | ->]; auto.
Qed.

Lemma osf_set : preserves only_sets_flag setShouldReserve.
Proof. intros c r c' H. injection H as _ <-. right. reflexivity. Qed.

Create HintDb osf.
#[local] Hint Resolve only_sets_flag_refl only_sets_flag_trans osf_set : osf.
#[local] Hint Resolve pres_ret pres_panic pres_get pres_index pres_andM
  pres_checkColumn : osf.

Ltac walk_osf :=
  repeat first
    [ progress eauto with osf
    | apply pres_bind; [exact only_sets_flag_trans | | intros]
    | match goal with
      | |- preserves _ (match ?x with _ => _ end) => destruct x
      | H : Forall _ (_ :: _) |- _ => apply Forall_cons_iff in H; destruct H
      end ].

Lemma osf_reserveUnlessFullLength : preserves only_sets_flag reserveUnlessFullLength.
Proof. unfold reserveUnlessFullLength. walk_osf. Qed.

Lemma osf_likeLoop fuel escape p n i : preserves only_sets_flag (likeLoop fuel escape p n i).
Proof. revert i. induction fuel as [|f IH]; intros i; cbn [likeLoop]; walk_osf. Qed.

#[local] Hint Resolve osf_reserveUnlessFullLength osf_likeLoop : osf.

Lemma osf_inLoop ConstEval tp vs : preserves only_sets_flag (inLoop ConstEval tp vs).
Proof. induction vs as [|v rest IH]; cbn [inLoop]; walk_osf. Qed.

Lemma osf_compareWithColumn CompatibleCollate ConstEval name collation k e :
  preserves only_sets_flag (compareWithColumn CompatibleCollate ConstEval name collation k e).
Proof. unfold compareWithColumn. walk_osf. Qed.

Lemma osf_checkLikeFunc CompatibleCollate DatumToString collation args :
  preserves only_sets_flag (checkLikeFunc CompatibleCollate DatumToString collation args).
Proof. unfold checkLikeFunc. walk_osf. Qed.

#[local] Hint Resolve osf_inLoop osf_compareWithColumn osf_checkLikeFunc : osf.

(** A walk changes nothing of the checker but the flag, which it can only
    set: the target column, the prefix length and the full-length mode are
    those it started with. *)
Theorem check_only_sets_flag CompatibleCollate ConstEval DatumToString e c r c' :
  check CompatibleCollate ConstEval DatumToString e c = Some (r, c') ->
  c' = c \/ c' = mkChecker (colUniqueID c) true (length c) (isFullLength c).
Proof.
  revert c r c'.
  change (preserves only_sets_flag (check CompatibleCollate ConstEval DatumToString e)).
  induction e as [n coll tp args HF | col | k | tp] using Expression_ind';
    cbn [check]; walk_osf.
Qed.

Lemma check_only_sets_flag_witness :
  mkChecker 1 true 10 false = mkChecker 1 false 10 false \/
  mkChecker 1 true 10 false = mkChecker 1 true 10 false.
Proof.
  apply (check_only_sets_flag sampleCompatibleCollate sampleConstEval sampleDatumToString
    (EScalarFunction IsNullF "binary" int_type [EColumn (mkColumn 2 int_type)])
    (mkChecker 1 false 10 false) false (mkChecker 1 true 10 false)).
  vm_compute. reflexivity.
Defined.

(** No [LIKE] node anywhere in the tree. *)
Fixpoint no_like (e : Expression) : bool :=
  match e with
  | EScalarFunction n _ _ args =>
      negb (String.eqb n Like) &&
      (fix go (l : list Expression) : bool :=
         match l with [] => true | x :: xs => no_like x && go xs end) args
  | _ => true
  end.

(** In full-length mode the checker is left unchanged. *)
Definition unchanged_if_full (c c' : conditionChecker) : Prop :=
  isFullLength c = true -> c' = c.

Lemma unchanged_if_full_refl c : unchanged_if_full c c.
Proof. intros _. reflexivity. Qed.

Lemma unchanged_if_full_trans c1 c2 c3 :
  unchanged_if_full c1 c2 -> unchanged_if_full c2 c3 -> unchanged_if_full c1 c3.
Proof.
  unfold unchanged_if_full. intros H12 H23 Hf.
  specialize (H12 Hf). subst c2. exact (H23 Hf).
Qed.

Lemma uif_reserveUnlessFullLength : preserves unchanged_if_full reserveUnlessFullLength.
Proof.
  intros c r c' H Hf. unfold reserveUnlessFullLength, bind, get in H.
  rewrite Hf in H. injection H as _ <-. reflexivity.
Qed.

Create HintDb uif.
#[local] Hint Resolve unchanged_if_full_refl unchanged_if_full_trans
  uif_reserveUnlessFullLength : uif.
#[local] Hint Resolve pres_ret pres_panic pres_get pres_index pres_andM
  pres_checkColumn : uif.

Ltac walk_uif :=
  repeat first
    [ progress eauto with uif
    | apply pres_bind; [exact unchanged_if_full_trans | | intros]
    | match goal with
      | |- preserves _ (match ?x with _ => _ end) => destruct x
      end ].

Lemma uif_inLoop ConstEval tp vs : preserves unchanged_if_full (inLoop ConstEval tp vs).
Proof.
  induction vs as [|v rest IH]; cbn [inLoop]; [walk_uif|].
  destruct v as [| | k |]; try solve [walk_uif].
  intros c r c' H Hf. unfold bind, get in H. cbn beta iota in H.
  rewrite Hf in H. unfold ret in H. exact (IH c r c' H Hf).
Qed.

Lemma uif_compareWithColumn CompatibleCollate ConstEval name collation k e :
  preserves unchanged_if_full (compareWithColumn CompatibleCollate ConstEval name collation k e).
Proof.
  unfold compareWithColumn. destruct (_ && _); [walk_uif|].
  intros c r c' H Hf. unfold bind, get in H. cbn beta iota in H.
  rewrite Hf in H. unfold ret in H. injection H as _ <-. reflexivity.
Qed.

#[local] Hint Resolve uif_inLoop uif_compareWithColumn : uif.

(** In full-length mode, a walk over a tree without [LIKE] leaves the flag
    (and the whole checker) unchanged: only the [LIKE] pattern scan can
    set it there. *)
Theorem check_full_length_no_like_unchanged CompatibleCollate ConstEval DatumToString
    e c r c' :
  isFullLength c = true -> no_like e = true ->
  check CompatibleCollate ConstEval DatumToString e c = Some (r, c') -> c' = c.
Proof.
  intros Hf Hnl H. revert c r c' H Hf. revert Hnl.
  change (no_like e = true ->
          preserves unchanged_if_full (check CompatibleCollate ConstEval DatumToString e)).
  induction e as [n coll tp args HF | col | k | tp] using Expression_ind';
    intros Hnl; cbn [check].
  - cbn [no_like] in Hnl. apply andb_prop in Hnl as [Hn Hargs].
    assert (Hall : Forall (fun a => preserves unchanged_if_full
                     (check CompatibleCollate ConstEval DatumToString a)) args).
    { induction HF as [|a l Ha HF IH]; constructor.
      - apply Ha. apply andb_prop in Hargs. tauto.
      - apply IH. apply andb_prop in Hargs. tauto. }
    clear HF Hargs.
    destruct (String.eqb n Like) eqn:HL; [discriminate Hn|].
    repeat first
      [ progress eauto with uif
      | apply pres_bind; [exact unchanged_if_full_trans | | intros]
      | match goal with
        | |- preserves _ (match ?x with _ => _ end) => destruct x
        | H : Forall _ (_ :: _) |- _ => apply Forall_cons_iff in H; destruct H
        end ].
  - walk_uif.
  - walk_uif.
  - walk_uif.
Qed.

Lemma check_full_length_no_like_unchanged_witness :
  mkChecker 1 false 10 true = mkChecker 1 false 10 true.
Proof.
  apply (check_full_length_no_like_unchanged sampleCompatibleCollate sampleConstEval
    sampleDatumToString
    (EScalarFunction LogicOr "binary" int_type
       [EScalarFunction IsNullF "binary" int_type [EColumn (mkColumn 1 int_type)];
        EScalarFunction In "binary" int_type
          [EColumn (mkColumn 1 int_type); EConstant (int_const 1); EConstant (int_const 2)]])
    (mkChecker 1 false 10 true) true (mkChecker 1 false 10 true)); vm_compute; reflexivity.
Defined.

(** *** The rules of [check], node by node *)

(** What [checkColumn] answers. *)
Definition is_target (c : conditionChecker) (e : Expression) : bool :=
  match e with EColumn col => colUniqueID c =? UniqueID col | _ => false end.

(** The checker after [reserveUnlessFullLength]. *)
Definition reserve_unless_full (c : conditionChecker) : conditionChecker :=
  if isFullLength c then c else reserved c.

Lemma checkColumn_eq e c : checkColumn e c = Some (is_target c e, c).
Proof. destruct e; reflexivity. Qed.

Lemma reserveUnlessFullLength_eq c :
  reserveUnlessFullLength c = Some (tt, reserve_unless_full c).
Proof.
  unfold reserveUnlessFullLength, reserve_unless_full, bind, get, ret.
  destruct (isFullLength c); reflexivity.
Qed.

(** *** Comparisons *)

(** In full-length mode a comparison of a constant with the target column
    (collation compatible when string-typed) is accepted, in either
    argument order, without touching the flag. *)
Theorem cmp_full_length_accepted CompatibleCollate ConstEval DatumToString
    name collation tp swap k col c :
  is_one_of name [EQ; NE; GE; GT; LE; LT; NullEQ] = true ->
  isFullLength c = true ->
  column_fits CompatibleCollate c col collation ->
  check CompatibleCollate ConstEval DatumToString
    (EScalarFunction name collation tp (cmp_args swap k col)) c = Some (true, c).
Proof.
  intros Hn Hf Hfit. rewrite check_cmp by assumption.
  rewrite compareWithColumn_fits by assumption. rewrite Hf. reflexivity.
Qed.

Lemma cmp_full_length_accepted_witness :
  check sampleCompatibleCollate sampleConstEval sampleDatumToString
    (EScalarFunction NE "utf8mb4_bin" int_type
       (cmp_args true (string_const "abcdefghijkl") (mkColumn 1 utf8mb4_bin_string)))
    (mkChecker 1 false 10 true) = Some (true, mkChecker 1 false 10 true).
Proof.
  exact (cmp_full_length_accepted sampleCompatibleCollate sampleConstEval
    sampleDatumToString NE "utf8mb4_bin" int_type true (string_const "abcdefghijkl")
    (mkColumn 1 utf8mb4_bin_string) (mkChecker 1 false 10 true) eq_refl eq_refl
    (conj eq_refl (fun _ => eq_refl))).
Defined.

(** A comparison of a constant with a string-typed target column whose
    collation is incompatible with the function's is rejected, in either
    mode, without touching the flag. *)
Theorem cmp_incompatible_collation_rejected CompatibleCollate ConstEval DatumToString
    name collation tp swap k col c :
  is_one_of name [EQ; NE; GE; GT; LE; LT; NullEQ] = true ->
  UniqueID col = colUniqueID c ->
  EvalType_eqb (ftEvalType (ColRetType col)) ETString = true ->
  CompatibleCollate (Collate (ColRetType col)) collation = false ->
  check CompatibleCollate ConstEval DatumToString
    (EScalarFunction name collation tp (cmp_args swap k col)) c = Some (false, c).
Proof.
  intros Hn Hid Hs Hcoll. pose proof Hn as Hn'.
  name_cases Hn';
    destruct swap; cbn; unfold bind, get, ret, checkColumn, index; cbn;
    rewrite Hid, Z.eqb_refl; unfold compareWithColumn; cbn [GetType];
    rewrite Hs, Hcoll; reflexivity.
Qed.

Lemma cmp_incompatible_collation_rejected_witness :
  check sampleCompatibleCollate sampleConstEval sampleDatumToString
    (EScalarFunction EQ "utf8mb4_general_ci" int_type
       (cmp_args false (string_const "ab") (mkColumn 1 utf8mb4_bin_string)))
    (mkChecker 1 false 10 true) = Some (false, mkChecker 1 false 10 true).
Proof.
  exact (cmp_incompatible_collation_rejected sampleCompatibleCollate sampleConstEval
    sampleDatumToString EQ "utf8mb4_general_ci" int_type false (string_const "ab")
    (mkColumn 1 utf8mb4_bin_string) (mkChecker 1 false 10 true) eq_refl eq_refl
    eq_refl eq_refl).
Defined.

(** A comparison none of whose two arguments is the target column (two
    constants, two columns, another column, a nested function) is
    rejected without touching the flag. *)
Theorem cmp_without_target_rejected CompatibleCollate ConstEval DatumToString
    name collation tp a0 a1 c :
  is_one_of name [EQ; NE; GE; GT; LE; LT; NullEQ] = true ->
  is_target c a0 = false -> is_target c a1 = false ->
  check CompatibleCollate ConstEval DatumToString
    (EScalarFunction name collation tp [a0; a1]) c = Some (false, c).
Proof.
  intros Hn H0 H1.
  name_cases Hn; destruct a0, a1; cbn in H0, H1; cbn;
    unfold bind, get, ret, index, checkColumn; cbn; rewrite ?H0, ?H1; reflexivity.
Qed.

Lemma cmp_without_target_rejected_witness :
  check sampleCompatibleCollate sampleConstEval sampleDatumToString
    (EScalarFunction EQ "binary" int_type
       [EConstant (int_const 1); EConstant (int_const 1)])
    (mkChecker 1 false 10 false) = Some (false, mkChecker 1 false 10 false).
Proof.
  exact (cmp_without_target_rejected sampleCompatibleCollate sampleConstEval
    sampleDatumToString EQ "binary" int_type (EConstant (int_const 1))
    (EConstant (int_const 1)) (mkChecker 1 false 10 false) eq_refl eq_refl eq_refl).
Defined.

(** *** [IN] lists *)

(** A list value whose prefixable length is unbounded or reaches the
    prefix length (lines 133-136). *)
Definition long_constant ConstEval (c : conditionChecker) (tp : FieldType) (k : Constant) : bool :=
  let constLen := GetLengthOfPrefixableConstant ConstEval (Some k) tp in
  (constLen =? -1) || (constLen >=? length c).

Lemma inLoop_constants ConstEval tp ks c :
  inLoop ConstEval tp (map EConstant ks) c =
  Some (true, if isFullLength c then c
              else if existsb (long_constant ConstEval c tp) ks then reserved c else c).
Proof.
  revert c. induction ks as [|k ks IH]; intros c.
  - cbn. destruct (isFullLength c); reflexivity.
  - cbn [map inLoop]. unfold bind, get. cbn beta iota.
    destruct (isFullLength c) eqn:Hf.
    + unfold ret. rewrite IH, Hf. reflexivity.
    + cbn [existsb]. unfold long_constant at 1.
      destruct (_ || _) eqn:Hl.
      * unfold setShouldReserve. rewrite IH. cbn [isFullLength]. rewrite Hf.
        rewrite orb_true_l.
        destruct (existsb _ ks); unfold reserved; cbn; rewrite ?Hf; reflexivity.
      * unfold ret. rewrite IH, Hf. reflexivity.
Qed.

(** An [IN] of the target column over constants, past the collation test:
    accepted; in full-length mode the checker is unchanged, in prefix mode
    the flag is set iff some value has an unbounded prefixable length or
    one reaching the prefix length. *)
Theorem in_constants_rule CompatibleCollate ConstEval DatumToString
    collation tp col k1 ks c :
  UniqueID col = colUniqueID c ->
  EvalType_eqb (ftEvalType (ConstRetType k1)) ETString
    && negb (CompatibleCollate (Collate (ColRetType col)) collation) = false ->
  check CompatibleCollate ConstEval DatumToString
    (EScalarFunction In collation tp (EColumn col :: map EConstant (k1 :: ks))) c =
  Some (true, if isFullLength c then c
              else if existsb (long_constant ConstEval c (ColRetType col)) (k1 :: ks)
                   then reserved c else c).
Proof.
  intros Hid Hcoll. cbn -[inLoop].
  unfold bind, index, get, ret, checkColumn. cbn -[inLoop].
  rewrite Hid, Z.eqb_refl. cbn -[inLoop].
  destruct (EvalType_eqb _ _), (CompatibleCollate (Collate (ColRetType col)) collation);
    cbn in Hcoll; try discriminate Hcoll; cbn -[inLoop];
    exact (inLoop_constants ConstEval (ColRetType col) (k1 :: ks) c).
Qed.

Lemma in_constants_rule_witness :
  check sampleCompatibleCollate sampleConstEval sampleDatumToString
    (EScalarFunction In "utf8mb4_bin" int_type
       (EColumn (mkColumn 1 utf8mb4_bin_string)
          :: map EConstant [string_const "ab"; string_const "abcdefghijkl"]))
    (mkChecker 1 false 10 false) = Some (true, mkChecker 1 true 10 false).
Proof.
  rewrite (in_constants_rule sampleCompatibleCollate sampleConstEval sampleDatumToString
    "utf8mb4_bin" int_type (mkColumn 1 utf8mb4_bin_string) (string_const "ab")
    [string_const "abcdefghijkl"] (mkChecker 1 false 10 false) eq_refl eq_refl).
  vm_compute. reflexivity.
Defined.

Lemma inLoop_accepts_constants ConstEval tp vs c c' :
  inLoop ConstEval tp vs c = Some (true, c') ->
  Forall (fun v => exists k, v = EConstant k) vs.
Proof.
  revert c. induction vs as [|v rest IH]; intros c H; [constructor|].
  destruct v as [| | k |]; cbn [inLoop] in H; try (unfold ret in H; discriminate H).
  constructor; [exists k; reflexivity|].
  unfold bind, get in H. cbn beta iota in H.
  match type of H with
  | match ?m with _ => _ end = _ => destruct m as [[u c1]|]; [|discriminate H]
  end.
  exact (IH c1 H).
Qed.

(** An accepted [IN] has the target column as first argument and only
    constants, at least one, after it. *)
Theorem in_accepted_shape CompatibleCollate ConstEval DatumToString
    collation tp args c c' :
  check CompatibleCollate ConstEval DatumToString
    (EScalarFunction In collation tp args) c = Some (true, c') ->
  exists col vs, args = EColumn col :: vs /\ UniqueID col = colUniqueID c /\
    vs <> [] /\ Forall (fun v => exists k, v = EConstant k) vs.
Proof.
  intros H. cbn -[inLoop] in H. unfold bind, index, get, ret, checkColumn in H.
  destruct args as [|a0 vs]; cbn -[inLoop] in H; [discriminate H|].
  destruct a0 as [| col | |]; cbn -[inLoop] in H; try discriminate H.
  destruct (colUniqueID c =? UniqueID col) eqn:E; cbn -[inLoop] in H; [|discriminate H].
  destruct vs as [|a1 vs']; cbn -[inLoop] in H; [discriminate H|].
  destruct (_ && _); [discriminate H|].
  exists col, (a1 :: vs'). split; [reflexivity|]. split.
  - apply Z.eqb_eq in E. symmetry. exact E.
  - split; [discriminate|]. exact (inLoop_accepts_constants _ _ _ _ _ H).
Qed.

Lemma in_accepted_shape_witness :
  exists col vs,
    [EColumn (mkColumn 1 int_type); EConstant (int_const 3)] = EColumn col :: vs /\
    UniqueID col = 1 /\ vs <> [] /\ Forall (fun v => exists k, v = EConstant k) vs.
Proof.
  apply (in_accepted_shape sampleCompatibleCollate sampleConstEval sampleDatumToString
    "binary" int_type [EColumn (mkColumn 1 int_type); EConstant (int_const 3)]
    (mkChecker 1 false 10 false) (mkChecker 1 true 10 false)).
  vm_compute. reflexivity.
Defined.

(** *** The [LIKE] pattern scan *)

Lemma byte_eqb_neq x y : x <> y -> Byte.eqb x y = false.
Proof.
  intros Hne. destruct (Byte.eqb x y) eqn:E; [|reflexivity].
  apply Byte.byte_dec_bl in E. contradiction.
Qed.

Lemma likeLoop_reject_gen fuel escape p i c c' :
  likeLoop fuel escape p (List.length p) i c = Some (false, c') ->
  i = 0%nat /\ c' = c /\
  exists b rest, p = b :: rest /\ (b = percent \/ b = underscore) /\ b <> escape.
Proof.
  revert i c. induction fuel as [|f IH]; intros i c H; cbn [likeLoop] in H;
    [unfold ret in H; discriminate H|].
  destruct (i <? List.length p)%nat eqn:Hi; [|unfold ret in H; discriminate H].
  apply Nat.ltb_lt in Hi.
  destruct (Byte.eqb (nth i p x00) escape) eqn:He.
  - destruct (S i <? List.length p - 1)%nat; [|unfold ret in H; discriminate H].
    apply IH in H. lia.
  - destruct ((i =? 0)%nat && _) eqn:Hw.
    + unfold ret in H. injection H as <-. apply andb_prop in Hw as [H0 Hw].
      apply Nat.eqb_eq in H0. subst i. split; [reflexivity|]. split; [reflexivity|].
      destruct p as [|b rest]; [cbn in Hi; lia|].
      exists b, rest. split; [reflexivity|]. cbn in He, Hw. split.
      * apply orb_prop in Hw as [Hw | Hw]; apply Byte.byte_dec_bl in Hw; auto.
      * apply Byte.eqb_false. exact He.
    + destruct (Byte.eqb _ percent).
      * unfold bind, ret, setShouldReserve in H.
        destruct (negb _); discriminate H.
      * destruct (Byte.eqb _ underscore).
        -- unfold bind, ret, setShouldReserve in H. discriminate H.
        -- apply IH in H. lia.
Qed.

(** The pattern scan of [checkLikeFunc] rejects exactly the patterns whose
    first byte is a [%] or [_] that is not the escape byte, and it never
    touches the checker before rejecting. *)
Theorem like_scan_rejects_leading_wildcard escape p c :
  (forall c', likeLoop (List.length p) escape p (List.length p) 0 c = Some (false, c') ->
   c' = c /\ exists b rest, p = b :: rest /\ (b = percent \/ b = underscore) /\ b <> escape) /\
  ((exists b rest, p = b :: rest /\ (b = percent \/ b = underscore) /\ b <> escape) ->
   likeLoop (List.length p) escape p (List.length p) 0 c = Some (false, c)).
Proof.
  split.
  - intros c' H. apply likeLoop_reject_gen in H. tauto.
  - intros [b [rest [-> [Hw Hne]]]]. cbn [List.length likeLoop nth].
    rewrite (byte_eqb_neq _ _ Hne).
    destruct Hw as [-> | ->]; reflexivity.
Qed.

Lemma like_scan_rejects_leading_wildcard_witness :
  likeLoop 4 "\"%byte (list_byte_of_string "%abc") 4 0 (mkChecker 1 false 10 false) =
  Some (false, mkChecker 1 false 10 false).
Proof.
  apply (proj2 (like_scan_rejects_leading_wildcard "\"%byte (list_byte_of_string "%abc")
    (mkChecker 1 false 10 false))).
  exists percent, (list_byte_of_string "abc"). split; [reflexivity|].
  split; [left; reflexivity | discriminate].
Defined.

Lemma likeLoop_skip_literal escape lit p n fuel i c :
  (forall j, (j < List.length lit)%nat ->
     nth j lit x00 <> escape /\ nth j lit x00 <> percent /\ nth j lit x00 <> underscore) ->
  (List.length lit < n)%nat ->
  (i <= List.length lit)%nat ->
  (List.length lit - i <= fuel)%nat ->
  likeLoop fuel escape (lit ++ p) n i c =
  likeLoop (fuel - (List.length lit - i)) escape (lit ++ p) n (List.length lit) c.
Proof.
  intros Hlit Hn. remember (List.length lit - i)%nat as d eqn:Hd.
  revert i fuel Hd. induction d as [|d IH]; intros i fuel Hd Hi Hf.
  - replace i with (List.length lit) by lia. rewrite Nat.sub_0_r. reflexivity.
  - destruct fuel as [|fuel]; [lia|]. cbn [likeLoop].
    assert (Hlt : (i < List.length lit)%nat) by lia.
    replace (i <? n)%nat with true by (symmetry; apply Nat.ltb_lt; lia).
    rewrite app_nth1 by exact Hlt.
    destruct (Hlit i Hlt) as [He [Hp Hu]].
    rewrite (byte_eqb_neq _ _ He), (byte_eqb_neq _ _ Hp), (byte_eqb_neq _ _ Hu).
    rewrite andb_false_r. rewrite (IH (S i) fuel) by lia. reflexivity.
Qed.

(** The pattern scan on a non-empty literal prefix (no [%], [_] or escape
    byte in it) followed by a wildcard that is not the escape byte:
    accepted; a [%] sets the flag iff it is not the last byte, a [_] always
    sets it. *)
Theorem like_scan_literal_then_wildcard escape lit rest c :
  lit <> [] ->
  (forall b, List.In b lit -> b <> escape /\ b <> percent /\ b <> underscore) ->
  (percent <> escape ->
   let P := lit ++ percent :: rest in
   likeLoop (List.length P) escape P (List.length P) 0 c =
   Some (true, match rest with [] => c | _ => reserved c end)) /\
  (underscore <> escape ->
   let P := lit ++ underscore :: rest in
   likeLoop (List.length P) escape P (List.length P) 0 c = Some (true, reserved c)).
Proof.
  intros Hne Hlit.
  assert (Hnth : forall j, (j < List.length lit)%nat ->
            nth j lit x00 <> escape /\ nth j lit x00 <> percent /\
            nth j lit x00 <> underscore)
    by (intros j Hj; apply Hlit, nth_In, Hj).
  assert (Hpos : (0 < List.length lit)%nat)
    by (destruct lit; [contradiction | cbn; lia]).
  split; intros Hw P; unfold P;
    (rewrite (likeLoop_skip_literal escape lit _ _ _ 0 c Hnth)
      by (rewrite ?length_app; cbn [List.length]; lia));
    rewrite Nat.sub_0_r;
    (replace (List.length (lit ++ _ :: rest) - List.length lit)%nat
       with (S (List.length rest)) by (rewrite length_app; cbn [List.length]; lia));
    cbn [likeLoop];
    (replace (List.length lit <? List.length (lit ++ _ :: rest))%nat with true
       by (symmetry; apply Nat.ltb_lt; rewrite length_app; cbn [List.length]; lia));
    rewrite nth_middle, (byte_eqb_neq _ _ Hw);
    replace (List.length lit =? 0)%nat with false by (symmetry; apply Nat.eqb_neq; lia);
    cbn [andb]; unfold bind, ret, setShouldReserve;
    change (Byte.eqb percent percent) with true;
    change (Byte.eqb underscore percent) with false;
    change (Byte.eqb underscore underscore) with true; cbv beta iota.
  - rewrite length_app. cbn [List.length].
    destruct rest as [|r rest]; cbn [List.length].
    + rewrite Nat.add_1_r, Nat.sub_succ, Nat.sub_0_r, Nat.eqb_refl. reflexivity.
    + replace (List.length lit =? List.length lit + S (S (List.length rest)) - 1)%nat
        with false by (symmetry; apply Nat.eqb_neq; lia).
      reflexivity.
  - reflexivity.
Qed.

Lemma like_scan_literal_then_wildcard_witness :
  likeLoop 4 "\"%byte (list_byte_of_string "ab%c") 4 0 (mkChecker 1 false 10 false) =
  Some (true, mkChecker 1 true 10 false).
Proof.
  exact (proj1 (like_scan_literal_then_wildcard "\"%byte (list_byte_of_string "ab")
    (list_byte_of_string "c") (mkChecker 1 false 10 false) ltac:(discriminate)
    ltac:(intros b Hb; cbn in Hb;
          destruct Hb as [<- | [<- | []]]; repeat split; discriminate))
    ltac:(discriminate)).
Defined.

Lemma likeLoop_no_wildcard fuel escape p i c :
  ~ List.In percent p -> ~ List.In underscore p ->
  likeLoop fuel escape p (List.length p) i c = Some (true, c).
Proof.
  intros Hp Hu. revert i. induction fuel as [|f IH]; intros i; cbn [likeLoop]; [reflexivity|].
  destruct (i <? List.length p)%nat eqn:Hi; [|reflexivity].
  apply Nat.ltb_lt in Hi.
  assert (Hin : List.In (nth i p x00) p) by (apply nth_In; exact Hi).
  destruct (Byte.eqb _ escape).
  - destruct (S i <? List.length p - 1)%nat; [apply IH | reflexivity].
  - assert (Hnp : nth i p x00 <> percent) by (intros E; rewrite E in Hin; contradiction).
    assert (Hnu : nth i p x00 <> underscore) by (intros E; rewrite E in Hin; contradiction).
    rewrite (byte_eqb_neq _ _ Hnp), (byte_eqb_neq _ _ Hnu), andb_false_r. apply IH.
Qed.

(** A [LIKE] on the target column (compatible collation) whose pattern has
    no [%] and no [_] byte (the empty pattern included) passes the pattern
    scan without touching the flag, whatever the escape byte; [check]
    accepts it, setting the flag in prefix mode only. *)
Theorem like_without_wildcard_accepted CompatibleCollate ConstEval DatumToString
    collation tp col pat esc p c :
  UniqueID col = colUniqueID c ->
  CompatibleCollate (Collate (ColRetType col)) collation = true ->
  IsNull (Value pat) = false ->
  DatumToString (Value pat) = Some p ->
  ~ List.In percent p -> ~ List.In underscore p ->
  checkLikeFunc CompatibleCollate DatumToString collation
    [EColumn col; EConstant pat; EConstant esc] c = Some (true, c) /\
  check CompatibleCollate ConstEval DatumToString
    (EScalarFunction Like collation tp [EColumn col; EConstant pat; EConstant esc]) c =
  Some (true, reserve_unless_full c).
Proof.
  intros Hid Hcoll Hnull Hstr Hp Hu.
  assert (Hlike : forall c0, colUniqueID c0 = colUniqueID c ->
            checkLikeFunc CompatibleCollate DatumToString collation
              [EColumn col; EConstant pat; EConstant esc] c0 = Some (true, c0)).
  { intros c0 Hc0.
    unfold checkLikeFunc, bind, index, checkColumn, get, ret; cbn -[likeLoop].
    rewrite Hcoll; cbn -[likeLoop]. rewrite Hc0, Hid, Z.eqb_refl; cbn -[likeLoop].
    rewrite Hnull, Hstr.
    destruct (List.length p =? 0)%nat; [reflexivity|].
    apply likeLoop_no_wildcard; assumption. }
  split; [apply Hlike; reflexivity|].
  cbn -[checkLikeFunc]. unfold bind at 1. rewrite reserveUnlessFullLength_eq.
  apply Hlike. unfold reserve_unless_full. destruct (isFullLength c); reflexivity.
Qed.

Lemma like_without_wildcard_accepted_witness :
  check sampleCompatibleCollate sampleConstEval sampleDatumToString
    (EScalarFunction Like "utf8mb4_bin" int_type
       [EColumn (mkColumn 1 utf8mb4_bin_string); EConstant (string_const "abc");
        EConstant (int_const 92)])
    (mkChecker 1 false 10 false) = Some (true, mkChecker 1 true 10 false).
Proof.
  exact (proj2 (like_without_wildcard_accepted sampleCompatibleCollate sampleConstEval
    sampleDatumToString "utf8mb4_bin" int_type (mkColumn 1 utf8mb4_bin_string)
    (string_const "abc") (int_const 92) (list_byte_of_string "abc")
    (mkChecker 1 false 10 false) eq_refl eq_refl eq_refl eq_refl
    ltac:(cbn; intuition discriminate) ltac:(cbn; intuition discriminate))).
Defined.

(** [checkLikeFunc] never touches the checker when it rejects: every
    rejection (collation, column, pattern kind, null or unprintable
    pattern, leading wildcard) happens before the flag is set. *)
Theorem checkLikeFunc_reject_unchanged CompatibleCollate DatumToString collation args c c' :
  checkLikeFunc CompatibleCollate DatumToString collation args c = Some (false, c') ->
  c' = c.
Proof.
  intros H. unfold checkLikeFunc, bind, index, ret, panic in H.
  destruct (nth_error args 0) as [a0|]; cbn -[checkColumn likeLoop nth_error] in H; [|discriminate H].
  destruct (CompatibleCollate (Collate (GetType a0)) collation);
    cbn -[checkColumn likeLoop nth_error] in H; [|congruence].
  rewrite checkColumn_eq in H.
  destruct (is_target c a0); cbn -[likeLoop nth_error] in H; [|congruence].
  destruct (nth_error args 1) as [a1|]; cbn -[likeLoop nth_error] in H; [|discriminate H].
  destruct a1 as [| |k|]; cbn -[likeLoop nth_error] in H; try congruence.
  destruct (IsNull (Value k)); cbn -[likeLoop nth_error] in H; [congruence|].
  destruct (DatumToString (Value k)) as [p|]; cbn -[likeLoop nth_error] in H; [|congruence].
  destruct (List.length p =? 0)%nat; cbn -[likeLoop nth_error] in H; [congruence|].
  destruct (nth_error args 2) as [a2|]; cbn -[likeLoop nth_error] in H; [|discriminate H].
  destruct a2; cbn -[likeLoop nth_error] in H; try discriminate H.
  apply likeLoop_reject_gen in H. tauto.
Qed.

Lemma checkLikeFunc_reject_unchanged_witness :
  mkChecker 1 false 10 false = mkChecker 1 false 10 false.
Proof.
  apply (checkLikeFunc_reject_unchanged sampleCompatibleCollate sampleDatumToString
    "utf8mb4_bin" [EColumn (mkColumn 1 utf8mb4_bin_string); EConstant (string_const "_bc");
                   EConstant (int_const 92)] (mkChecker 1 false 10 false)).
  vm_compute. reflexivity.
Defined.

Lemma first_size c s lo hi : first c = Some (Some (s, lo, hi)) -> (2 <= s)%nat.
Proof.
  unfold first.
  repeat match goal with |- context [if ?b then _ else _] => destruct b end;
    intros H; try discriminate H; injection H as <- <- <-; lia.
Qed.

Lemma rune_size_pos p : (1 <= rune_size p)%nat.
Proof.
  destruct p as [|c rest]; cbn; [lia|].
  destruct (first (Byte.to_N c)) as [[[[s lo] hi]|]|] eqn:Hf; try lia.
  apply first_size in Hf.
  repeat match goal with
         | |- context [if ?b then _ else _] => destruct b
         | |- context [match ?l with [] => _ | _ :: _ => _ end] => destruct l
         end; lia.
Qed.

Lemma rune_count_fuel_le fuel p : (rune_count_fuel fuel p <= List.length p)%nat.
Proof.
  revert p. induction fuel as [|f IH]; intros p; cbn; [lia|].
  destruct p as [|b rest]; [lia|].
  pose proof (rune_size_pos (b :: rest)) as Hs.
  specialize (IH (skipn (rune_size (b :: rest)) (b :: rest))).
  rewrite length_skipn in IH. cbn [List.length] in *. lia.
Qed.

Lemma rune_count_ascii p :
  Forall (fun b => (Byte.to_N b < 128)%N) p -> RuneCount p = List.length p.
Proof.
  unfold RuneCount. induction 1 as [|b rest Hb _ IH]; [reflexivity|].
  cbn [List.length rune_count_fuel].
  assert (Hs : rune_size (b :: rest) = 1%nat).
  { cbn. unfold first. apply N.ltb_lt in Hb. rewrite Hb. reflexivity. }
  rewrite Hs. cbn [skipn]. rewrite IH. reflexivity.
Qed.

(** [GetLengthOfPrefixableConstant] is [-1] or a length: for a constant
    that evaluates to a string or bytes value it lies between [0] and the
    byte length of the value (a UTF-8 rune count never exceeds the byte
    count), and equals the byte length when every byte is ASCII, whatever
    the column's charset. *)
Theorem prefixable_length_bounds ConstEval k tp :
  -1 <= GetLengthOfPrefixableConstant ConstEval (Some k) tp /\
  (forall v,
     DeferredExpr k = false -> ParamMarker k = false ->
     ConstEval k = Some v -> isBytesOrStringKind v = true ->
     0 <= GetLengthOfPrefixableConstant ConstEval (Some k) tp
       <= Z.of_nat (List.length (GetBytes v)) /\
     (Forall (fun b => (Byte.to_N b < 128)%N) (GetBytes v) ->
      GetLengthOfPrefixableConstant ConstEval (Some k) tp
      = Z.of_nat (List.length (GetBytes v)))).
Proof.
  unfold GetLengthOfPrefixableConstant. split.
  - destruct (DeferredExpr k || ParamMarker k); [lia|].
    destruct (ConstEval k) as [v|]; [|lia].
    destruct (negb (isBytesOrStringKind v)); [lia|].
    destruct (_ || _); lia.
  - intros v Hd Hp Hv Hk. rewrite Hd, Hp, Hv, Hk. cbn [orb negb].
    pose proof (rune_count_fuel_le (List.length (GetBytes v)) (GetBytes v)).
    unfold RuneCount.
    destruct (_ || _); split; try lia.
    intros Ha. pose proof (rune_count_ascii _ Ha) as E. unfold RuneCount in E.
    rewrite E. reflexivity.
Qed.

Lemma prefixable_length_bounds_witness :
  0 <= GetLengthOfPrefixableConstant sampleConstEval
         (Some (mkConstant (KindString three_runes) false false utf8mb4_bin_string))
         utf8mb4_bin_string <= 9.
Proof.
  exact (proj1 (proj2 (prefixable_length_bounds sampleConstEval
    (mkConstant (KindString three_runes) false false utf8mb4_bin_string) utf8mb4_bin_string)
    (KindString three_runes) eq_refl eq_refl eq_refl eq_refl)).
Defined.

(** The argument shapes that [checkScalarFunction] indexes into: two
    arguments for the logic operators (both checked), the comparisons and
    [In]; one for [IsNull], the [IsTruth] family and [UnaryNot] (checked);
    for [Like] a third argument that is a constant (the escape). *)
Fixpoint arity_ok (e : Expression) : bool :=
  match e with
  | EScalarFunction name _ _ args =>
      if is_one_of name [LogicOr; LogicAnd] then
        match args with a0 :: a1 :: _ => arity_ok a0 && arity_ok a1 | _ => false end
      else if is_one_of name [EQ; NE; GE; GT; LE; LT; NullEQ] then
        (2 <=? List.length args)%nat
      else if String.eqb name IsNullF then (1 <=? List.length args)%nat
      else if is_one_of name [IsTruthWithoutNull; IsFalsity; IsTruthWithNull] then
        (1 <=? List.length args)%nat
      else if String.eqb name UnaryNot then
        match args with a0 :: _ => arity_ok a0 | [] => false end
      else if String.eqb name In then (2 <=? List.length args)%nat
      else if String.eqb name Like then
        match args with _ :: _ :: EConstant _ :: _ => true | _ => false end
      else true
  | _ => true
  end.

Definition no_panic {A} (m : M A) : Prop := forall c, m c <> None.

Lemma np_ret {A} (x : A) : no_panic (ret x).
Proof. intros c. unfold ret. discriminate. Qed.

Lemma np_get : no_panic get.
Proof. intros c. unfold get. discriminate. Qed.

Lemma np_set : no_panic setShouldReserve.
Proof. intros c. unfold setShouldReserve. discriminate. Qed.

Lemma np_bind {A B} (m : M A) (k : A -> M B) :
  no_panic m -> (forall x, no_panic (k x)) -> no_panic (bind m k).
Proof.
  intros Hm Hk c. unfold bind. destruct (m c) as [[x c']|] eqn:E.
  - apply Hk.
  - exfalso. exact (Hm c E).
Qed.

Lemma np_index {A} (l : list A) i : (i < List.length l)%nat -> no_panic (index l i).
Proof.
  intros Hi. unfold index. destruct (nth_error l i) eqn:E.
  - apply np_ret.
  - apply nth_error_None in E. lia.
Qed.

Lemma np_checkColumn e : no_panic (checkColumn e).
Proof. intros c. rewrite checkColumn_eq. discriminate. Qed.

Ltac np_walk :=
  repeat match goal with
  | |- no_panic (bind (ret ?x) ?k) => change (no_panic (k x)); cbv beta zeta
  | |- no_panic (bind _ _) => apply np_bind; [|intros ?; cbv beta zeta]
  | |- no_panic (ret _) => apply np_ret
  | |- no_panic get => apply np_get
  | |- no_panic setShouldReserve => apply np_set
  | |- no_panic reserveUnlessFullLength => unfold reserveUnlessFullLength
  | |- no_panic (checkColumn _) => apply np_checkColumn
  | |- no_panic (andM _ _) => unfold andM
  | |- no_panic (index _ _) => apply np_index; cbn [List.length]; lia
  | |- no_panic (if ?b then _ else _) => destruct b
  | |- no_panic (let _ := _ in _) => cbv zeta
  end.

Lemma np_compareWithColumn CompatibleCollate ConstEval name collation k a :
  no_panic (compareWithColumn CompatibleCollate ConstEval name collation k a).
Proof. unfold compareWithColumn. np_walk. Qed.

Lemma np_inLoop ConstEval tp vs :
  no_panic (inLoop ConstEval tp vs).
Proof.
  induction vs as [|v rest IH]; cbn [inLoop]; np_walk.
  destruct v; np_walk; assumption.
Qed.

Lemma np_checkLikeFunc CompatibleCollate DatumToString collation a0 a1 k rest :
  no_panic (checkLikeFunc CompatibleCollate DatumToString collation
              (a0 :: a1 :: EConstant k :: rest)).
Proof.
  unfold checkLikeFunc. cbn [index nth_error]. np_walk.
  destruct a1; np_walk.
  match goal with |- no_panic (match ?d with _ => _ end) => destruct d end; np_walk.
  intros c1. apply likeLoop_total.
Qed.

(** [check] never panics (no out-of-range argument index, no failed type
    assertion on the [Like] escape) on an expression whose functions have
    the argument shapes of [arity_ok]; a rejection is a [false] result,
    never a crash. *)
Theorem check_no_panic CompatibleCollate ConstEval DatumToString e c :
  arity_ok e = true ->
  check CompatibleCollate ConstEval DatumToString e c <> None.
Proof.
  enough (Hnp : arity_ok e = true ->
                no_panic (check CompatibleCollate ConstEval DatumToString e))
    by (intros Ha; apply Hnp, Ha).
  induction e as [n coll tp args HF | col | k | tp] using Expression_ind';
    intros Ha; cbn [arity_ok] in Ha; cbn [check].
  - destruct (is_one_of n [LogicOr; LogicAnd]).
    + destruct args as [|a0 [|a1 rest]]; try discriminate Ha.
      apply andb_prop in Ha as [Ha0 Ha1]. inversion HF as [|? ? H0 HF']; subst.
      inversion HF' as [|? ? H1 _]; subst.
      np_walk; [apply H0; exact Ha0 | apply H1; exact Ha1].
    + destruct (is_one_of n [EQ; NE; GE; GT; LE; LT; NullEQ]).
      { apply Nat.leb_le in Ha. np_walk;
        repeat match goal with
        | |- no_panic (compareWithColumn _ _ _ _ _ _) => apply np_compareWithColumn
        | x : Expression |- no_panic (match ?x with _ => _ end) => destruct x; np_walk
        end. }
      destruct (String.eqb n IsNullF).
      { apply Nat.leb_le in Ha. np_walk. }
      destruct (is_one_of n [IsTruthWithoutNull; IsFalsity; IsTruthWithNull]).
      { apply Nat.leb_le in Ha. np_walk.
        match goal with x : Expression |- _ => destruct x end; np_walk. }
      destruct (String.eqb n UnaryNot).
      { destruct args as [|a0 rest]; [discriminate Ha|].
        inversion HF as [|? ? H0 _]; subst.
        destruct a0; np_walk. apply H0. exact Ha. }
      destruct (String.eqb n In).
      { apply Nat.leb_le in Ha. np_walk. apply np_inLoop. }
      destruct (String.eqb n Like).
      { destruct args as [|a0 [|a1 [|[] rest]]]; try discriminate Ha.
        np_walk. apply np_checkLikeFunc. }
      destruct (String.eqb n GetParam); np_walk.
  - np_walk.
  - np_walk.
  - np_walk.
Qed.

Lemma check_no_panic_witness :
  let col := EColumn (mkColumn 1 utf8mb4_bin_string) in
  let e := EScalarFunction LogicAnd "utf8mb4_bin" int_type
             [EScalarFunction Like "utf8mb4_bin" int_type
                [col; EConstant (string_const "a_c"); EConstant (int_const 92)];
              EScalarFunction In "utf8mb4_bin" int_type
                [col; EConstant (string_const "abc")]] in
  arity_ok e = true /\
  check sampleCompatibleCollate sampleConstEval sampleDatumToString e
    (mkChecker 1 false 10 false) <> None.
Proof.
  cbv zeta. split; [reflexivity|].
  apply check_no_panic. reflexivity.
Defined.

(** A comparison of a constant with a column gives the same result with
    the constant on either side: both orders are checked by
    [compareWithColumn] when the column is the target, and both are
    rejected with the checker unchanged otherwise; further arguments are
    ignored. *)
Theorem cmp_operand_order CompatibleCollate ConstEval DatumToString
    name collation tp k col rest c :
  is_one_of name [EQ; NE; GE; GT; LE; LT; NullEQ] = true ->
  check CompatibleCollate ConstEval DatumToString
    (EScalarFunction name collation tp (EConstant k :: EColumn col :: rest)) c =
  check CompatibleCollate ConstEval DatumToString
    (EScalarFunction name collation tp (EColumn col :: EConstant k :: rest)) c /\
  check CompatibleCollate ConstEval DatumToString
    (EScalarFunction name collation tp (EColumn col :: EConstant k :: rest)) c =
  (if colUniqueID c =? UniqueID col
   then compareWithColumn CompatibleCollate ConstEval name collation k (EColumn col) c
   else Some (false, c)).
Proof.
  intros Hname.
  name_cases Hname; cbn -[compareWithColumn];
    unfold bind, get, ret, checkColumn, index; cbn -[compareWithColumn];
    destruct (colUniqueID c =? UniqueID col); split; reflexivity.
Qed.

Lemma cmp_operand_order_witness :
  check sampleCompatibleCollate sampleConstEval sampleDatumToString
    (EScalarFunction GE "utf8mb4_bin" int_type
       [EConstant (string_const "abcdefghijkl"); EColumn (mkColumn 1 utf8mb4_bin_string)])
    (mkChecker 1 false 10 false) = Some (true, mkChecker 1 true 10 false).
Proof.
  rewrite (proj1 (cmp_operand_order sampleCompatibleCollate sampleConstEval
    sampleDatumToString GE "utf8mb4_bin" int_type (string_const "abcdefghijkl")
    (mkColumn 1 utf8mb4_bin_string) [] (mkChecker 1 false 10 false) eq_refl)).
  vm_compute. reflexivity.
Defined.
